(** * jaysbot: the [/poll_mlb] check cycle of [server.go]

    A shallow embedding of [mlb_handler] and [send_to_slack].  The App Engine
    datastore kind ["jays"] is a finite map from entity ids to [Alert]s; the
    outside world (scoreboard fetch, clock, datastore and webhook outcomes) is
    an explicit [Env] record handed to the handler, and every call that leaves
    the process is recorded, in order, in the [events] of the [World]. *)

From Stdlib Require Import ZArith Ascii String List Lia.
From Stdlib Require Import DecimalString DecimalPos DecimalZ.
From stdpp Require Import base option list gmap strings sorting infinite.

Local Open Scope string_scope.
Local Open Scope Z_scope.
Local Open Scope list_scope.

(** ** Data model (the Go structs) *)

(** [Linescore.Runs]: the anonymous struct with the two run counts.  They are
    Go [int]s decoded from string-encoded JSON numbers; only their order is
    ever inspected, so they are integers here. *)
Record RunsT := mkRuns { Home : Z; Away : Z }.

Record Linescore := mkLinescore { Runs : RunsT }.

(** [Updated] is a [time.Time]; it is an instant on the datastore's time
    line, counted from the epoch. *)
Record Alert := mkAlert { Text : string; BriefText : string; Updated : Z }.

Record Game := mkGame {
  HomeTeamCity : string;
  AwayTeamCity : string;
  Alerts : Alert;
  Linescore_ : Linescore
}.

Module SlackAttachment.
Record t := mk { Fallback : string; Color : string; Text : string }.
End SlackAttachment.

Record SlackNotification := mkSlackNotification {
  Attachments : list SlackAttachment.t
}.

(** [jaysGame.Alerts.Updated = time.Now()] *)
Definition set_Updated (now : Z) (a : Alert) : Alert :=
  mkAlert (Text a) (BriefText a) now.

(** ** The datastore kind ["jays"] *)

(** A [*datastore.Key] of kind ["jays"] without parent: either incomplete
    ([datastore.NewIncompleteKey]) or carrying the integer id of an entity. *)
Inductive DsKey := IncompleteKey | CompleteKey (id : Z).

(** A successful [datastore.Put]: an incomplete key is completed with an id
    the datastore allocates, unused so far; a complete key is written as it
    is, replacing the entity stored under it. *)
Definition put_id (key : DsKey) (ds : gmap Z Alert) : Z :=
  match key with
  | IncompleteKey => fresh (dom ds)
  | CompleteKey id => id
  end.

Definition datastore_Put (key : DsKey) (src : Alert) (ds : gmap Z Alert)
  : gmap Z Alert :=
  <[put_id key ds := src]> ds.

(** [Order("-Updated")]: later instants first; entities with the same
    instant follow the order of their keys. *)
Definition newer_first (x y : Z * Alert) : Prop :=
  Updated y.2 < Updated x.2 ∨ (Updated x.2 = Updated y.2 ∧ x.1 ≤ y.1).

Global Instance newer_first_dec x y : Decision (newer_first x y).
Proof. unfold newer_first. apply _. Defined.

(** [datastore.NewQuery("jays").Order("-Updated").GetAll]: every entity of
    the kind, as (key, value) pairs: [keys[i]] is the key of [alerts[i]]. *)
Definition datastore_GetAll (ds : gmap Z Alert) : list (Z * Alert) :=
  merge_sort newer_first (map_to_list ds).

(** ** The outside world *)

(** What [urlfetch]'s client makes of the POST to the webhook.  As with
    every Go [http.Client], a response with any status code is a response
    and comes with a nil error; an error is returned when the request could
    not be built from the URL or HTTP could not be spoken. *)
Inductive Transport :=
  | Responded (status : Z)
  | NetworkFailure (err : string)
  | MalformedURL (err : string).

Record Env := mkEnv {
  env_timezone : option string;      (* error of time.LoadLocation *)
  env_get : option string;           (* error of client.Get *)
  env_decode : string + list Game;   (* Decode: error, or parsed.Data.Games.Game *)
  env_getall : option string;        (* error of q.GetAll *)
  env_now : Z;                       (* time.Now() *)
  env_put : option string;           (* error of datastore.Put *)
  env_post : Transport               (* outcome of client.Post *)
}.

Inductive Event :=
  | LogCritical (msg : string)
  | HttpError (msg : string) (code : Z)
  | UrlfetchGet
  | DatastoreGetAll
  | DatastorePut (key : DsKey) (src : Alert) (err : option string)
  | UrlfetchPost (body : SlackNotification).

Record World := mkWorld { datastore : gmap Z Alert; events : list Event }.

Definition emit (e : Event) (w : World) : World :=
  mkWorld (datastore w) (events w ++ [e]).

(** ** Go's [(value, error)] results, threaded through the world *)

Inductive GoResult (A : Type) := Value (a : A) | Error (err : string).
Arguments Value {A} a.
Arguments Error {A} err.

Definition M (A : Type) : Type := World → GoResult A * World.

Global Instance M_ret : MRet M := λ A a w, (Value a, w).

Global Instance M_bind : MBind M := λ A B f m w,
  match m w with
  | (Value a, w') => f a w'
  | (Error err, w') => (Error err, w')
  end.

Definition raise {A} (err : string) : M A := λ w, (Error err, w).

Definition effect (e : Event) : M unit := λ w, (Value tt, emit e w).

Definition stored : M (gmap Z Alert) := λ w, (Value (datastore w), w).

Definition store (ds : gmap Z Alert) : M unit := λ w,
  (Value tt, mkWorld ds (events w)).

(** [if err != nil { return nil, err }] *)
Definition check (err : option string) : M unit :=
  match err with
  | Some e => raise e
  | None => mret tt
  end.

(** The handler's error exit:
    [log.Criticalf(c, "%s", err); http.Error(w, err.Error(), 500); return] *)
Definition orFail {A} (m : M A) : M A := λ w,
  match m w with
  | (Value a, w') => (Value a, w')
  | (Error err, w') =>
      (Error err,
       emit (HttpError err 500) (emit (LogCritical err) w'))
  end.

(** ** Datastore calls *)

Definition GetAll (env : Env) : M (list (Z * Alert)) :=
  effect DatastoreGetAll;;
  check (env_getall env);;
  ds ← stored;
  mret (datastore_GetAll ds).

Definition Put (env : Env) (key : DsKey) (src : Alert) : M unit :=
  effect (DatastorePut key src (env_put env));;
  check (env_put env);;
  ds ← stored;
  store (datastore_Put key src ds).

(** ** [send_to_slack] *)

(** [json.Marshal] of a [SlackNotification]: a struct of strings and a slice
    of such structs always encodes, so the error is nil; the body of the
    request is kept as the value it encodes. *)
Definition json_Marshal (req : SlackNotification) : string + SlackNotification :=
  inr req.

Definition client_Post (env : Env) (body : SlackNotification) : M Z :=
  effect (UrlfetchPost body);;
  match env_post env with
  | Responded status => mret status
  | NetworkFailure err => raise err
  | MalformedURL err => raise err
  end.

Definition send_to_slack (env : Env) (message color : string) : M Z :=
  let req := mkSlackNotification [SlackAttachment.mk "" color message] in
  match json_Marshal req with
  | inl err => raise err
  | inr encoded => client_Post env encoded
  end.

(** ** [mlb_handler] *)

(** Lines 139-152: the loop that finds the Jays game, with [areJaysHome]. *)
Fixpoint find_jays (games : list Game) : option (Game * bool) :=
  match games with
  | [] => None
  | game :: rest =>
      if String.eqb (HomeTeamCity game) "Toronto" then Some (game, true)
      else if String.eqb (AwayTeamCity game) "Toronto" then Some (game, false)
      else find_jays rest
  end.

(** Lines 193-206: the colour of the attachment. *)
Definition pick_color (areJaysHome : bool) (r : RunsT) : string :=
  if areJaysHome then
    if Home r >? Away r then "#00cc00"
    else if Away r >? Home r then "#e50000"
    else "#808080"
  else
    if Home r >? Away r then "#e50000"
    else if Away r >? Home r then "#00cc00"
    else "#808080".

(** Lines 101-136: time zone, fetch and decode. *)
Definition fetch_games (env : Env) : M (list Game) :=
  orFail (check (env_timezone env));;
  orFail (effect UrlfetchGet;; check (env_get env));;
  orFail (match env_decode env with
          | inl err => raise err
          | inr games => mret games
          end).

(** Lines 165-190: compare with the latest stored alert and store. *)
Definition store_if_new (env : Env) (alerts : list (Z * Alert)) (current : Alert)
  : M bool :=
  match alerts with
  | [] =>
      orFail (Put env IncompleteKey current);;
      mret true
  | (key0, latest) :: _ =>
      if decide (BriefText latest ≠ BriefText current) then
        orFail (Put env (CompleteKey key0) current);;
        mret true
      else mret false
  end.

(** Lines 192-213: colour the alert and post it. *)
Definition notify_slack (env : Env) (jaysGame : Game) (areJaysHome : bool)
    (current : Alert) : M unit :=
  let color := pick_color areJaysHome (Runs (Linescore_ jaysGame)) in
  orFail (send_to_slack env (BriefText current) color);;
  mret tt.

(** Lines 154-214: the body of [if jaysGame != nil]. *)
Definition check_alert (env : Env) (jaysGame : Game) (areJaysHome : bool)
  : M unit :=
  alerts ← orFail (GetAll env);
  let current := set_Updated (env_now env) (Alerts jaysGame) in
  notify ← store_if_new env alerts current;
  if notify : bool then notify_slack env jaysGame areJaysHome current
  else mret tt.

Definition mlb_handler (env : Env) : M unit :=
  games ← fetch_games env;
  match find_jays games with
  | None => mret tt
  | Some (jaysGame, areJaysHome) => check_alert env jaysGame areJaysHome
  end.

(** One cycle started on a datastore: the reply and the world it leaves. *)
Definition cycle (env : Env) (ds : gmap Z Alert) : GoResult unit * World :=
  mlb_handler env (mkWorld ds []).

(** The status line of the reply: 200 unless [http.Error] was called. *)
Definition status (r : GoResult unit) : Z :=
  match r with Value _ => 200 | Error _ => 500 end.


Definition with_post (p : Transport) (env : Env) : Env :=
  mkEnv (env_timezone env) (env_get env) (env_decode env) (env_getall env)
        (env_now env) (env_put env) p.

(** ** What a cycle did, read off its events *)

Definition is_read (e : Event) : bool :=
  match e with DatastoreGetAll => true | _ => false end.

Definition is_put (e : Event) : bool :=
  match e with DatastorePut _ _ _ => true | _ => false end.

Definition is_post (e : Event) : bool :=
  match e with UrlfetchPost _ => true | _ => false end.

Definition is_error (e : Event) : bool :=
  match e with LogCritical _ | HttpError _ _ => true | _ => false end.

Definition did (p : Event → bool) (out : GoResult unit * World) : bool :=
  existsb p (events out.2).

(** The fetch went through and the loop stopped at [jaysGame], with
    [areJaysHome]. *)
Definition extracts (env : Env) (jaysGame : Game) (areJaysHome : bool) : Prop :=
  env_timezone env = None ∧ env_get env = None ∧
  ∃ games, env_decode env = inr games ∧
           find_jays games = Some (jaysGame, areJaysHome).

(** The alert the cycle compares and stores. *)
Definition current (env : Env) (jaysGame : Game) : Alert :=
  set_Updated (env_now env) (Alerts jaysGame).

(** ** The presentation category of the specification *)

Inductive Category := Favorable | Unfavorable | Neutral.

Definition category_color (c : Category) : string :=
  match c with
  | Favorable => "#00cc00"
  | Unfavorable => "#e50000"
  | Neutral => "#808080"
  end.

(** The derivation as the specification words it. *)
Definition spec_category (primary : bool) (home away : Z) : Category :=
  if home =? away then Neutral
  else if primary then (if home >? away then Favorable else Unfavorable)
  else (if away >? home then Favorable else Unfavorable).

(** What the specification counts as a failed delivery. *)
Definition delivery_failure (t : Transport) : bool :=
  match t with
  | Responded status => negb ((200 <=? status) && (status <? 300))
  | NetworkFailure _ | MalformedURL _ => true
  end.

Definition no_match (game : Game) : Prop :=
  HomeTeamCity game ≠ "Toronto" ∧ AwayTeamCity game ≠ "Toronto".

(** The outcome of the post, as [mlb_handler] sees it. *)
Definition post_reply (env : Env) (t : list Event) : GoResult unit * list Event :=
  match env_post env with
  | Responded _ => (Value tt, t)
  | NetworkFailure err | MalformedURL err =>
      (Error err, t ++ [LogCritical err; HttpError err 500])
  end.

(** The write that a change against [alerts] calls for. *)
Definition write_key (alerts : list (Z * Alert)) : DsKey :=
  match alerts with
  | [] => IncompleteKey
  | (key0, _) :: _ => CompleteKey key0
  end.

Definition changed (alerts : list (Z * Alert)) (cur : Alert) : Prop :=
  match alerts with
  | [] => True
  | (_, latest) :: _ => BriefText latest ≠ BriefText cur
  end.

Global Instance changed_dec alerts cur : Decision (changed alerts cur).
Proof. destruct alerts as [|[??]?]; simpl; apply _. Defined.

(** ** Lines 110-122: the address of the scoreboard *)

(** [strconv.Itoa]: the decimal digits, after a minus sign below zero. *)
Definition Itoa (n : Z) : string := NilZero.string_of_int (Z.to_int n).

(** [if len(s) == 1 { s = fmt.Sprint(0, s) }]: [fmt.Sprint] puts a space
    between two operands only when neither is a string. *)
Definition zero_pad (s : string) : string :=
  if Nat.eqb (String.length s) 1 then String.append "0" s else s.

(** The argument of [client.Get], from [year, month, day] of the current
    date in New York. *)
Definition scoreboard_url (year month day : Z) : string :=
  let dayString := zero_pad (Itoa day) in
  let monthString := zero_pad (Itoa month) in
  String.append "http://gd2.mlb.com/components/game/mlb/year_"
    (String.append (Itoa year)
      (String.append "/month_"
        (String.append monthString
          (String.append "/day_"
            (String.append dayString "/master_scoreboard.json"))))).

(** The number a decimal string stands for. *)
Definition decimal_value (s : string) : option Z :=
  Z.of_int <$> NilZero.int_of_string s.

(** The decimal digit of a number below ten, as a character. *)
Definition digit (d : Z) : ascii := ascii_of_nat (48 + Z.to_nat d).

Definition two_digits (n : Z) : string :=
  String (digit (n / 10)) (String (digit (n mod 10)) EmptyString).

(** No character of the string is a slash. *)
Fixpoint slash_free (s : string) : bool :=
  match s with
  | EmptyString => true
  | String c rest => negb (Ascii.eqb c "/") && slash_free rest
  end.

(** ** Cycle after cycle *)

(** The trigger calls the handler once per environment, each cycle on the
    datastore the one before left. *)
Fixpoint poll (envs : list Env) (ds : gmap Z Alert) : gmap Z Alert :=
  match envs with
  | [] => ds
  | env :: rest => poll rest (datastore (cycle env ds).2)
  end.

Definition with_now (now : Z) (env : Env) : Env :=
  mkEnv (env_timezone env) (env_get env) (env_decode env) (env_getall env)
        now (env_put env) (env_post env).

(** The event with the alert of a [datastore.Put] stamped [now]. *)
Definition retime (now : Z) (e : Event) : Event :=
  match e with
  | DatastorePut key src err =>
      DatastorePut key (mkAlert (Text src) (BriefText src) now) err
  | _ => e
  end.

(** The calls that leave the process, as opposed to the error exit. *)
Definition is_call (e : Event) : bool := negb (is_error e).

(** The fetch failed with [err], after the events [t]. *)
Definition fetch_fails (env : Env) (err : string) (t : list Event) : Prop :=
  (env_timezone env = Some err ∧ t = []) ∨
  (env_timezone env = None ∧ t = [UrlfetchGet] ∧
   (env_get env = Some err ∨
    (env_get env = None ∧ env_decode env = inl err))).

(** ** Inputs of the examples *)

Definition jays_away : Game :=
  mkGame "Boston" "Toronto" (mkAlert "Jays hold on at Fenway" "Jays win" 0)
         (mkLinescore (mkRuns 2 5)).

Definition no_zoneinfo : Env :=
  mkEnv (Some "unknown time zone America/New_York") None (inr []) None 9 None
        (Responded 200).


Definition jays_at_home : Game :=
  mkGame "Toronto" "Boston" (mkAlert "Jays take the opener" "Jays win" 0)
         (mkLinescore (mkRuns 5 2)).

Definition elsewhere : Game :=
  mkGame "Boston" "New York" (mkAlert "Final in Boston" "Sox win" 0)
         (mkLinescore (mkRuns 1 0)).

Definition calm (games : list Game) (now : Z) : Env :=
  mkEnv None None (inr games) None now None (Responded 200).

Definition one_alert (a : Alert) : gmap Z Alert := <[4 := a]> ∅.

Definition disk_full : Env :=
  mkEnv None None (inr [jays_at_home]) None 9 (Some "datastore: over quota")
        (Responded 200).

Definition reset_by_peer : Env :=
  mkEnv None None (inr [jays_at_home]) None 9 None
        (NetworkFailure "connection reset").

(** A POST that got a response with status 500: the webhook refused it. *)
Definition refused : Env :=
  mkEnv None None (inr [jays_at_home]) None 9 None (Responded 500).

(** Two stores whose newest alert has the greater key. *)
Definition win_after_trail : gmap Z Alert :=
  <[1 := mkAlert "Bottom of the 4th" "Jays trail" 5]>
    (<[2 := mkAlert "Rain delay in the 9th" "Jays win" 10]> ∅).

Definition lead_after_win : gmap Z Alert :=
  <[1 := mkAlert "Final, last night" "Jays win" 5]>
    (<[2 := mkAlert "Top of the 9th" "Jays lead" 10]> ∅).

Definition two_alerts : gmap Z Alert :=
  <[1 := mkAlert "Top of the 9th" "Jays lead" 10]>
    (<[2 := mkAlert "Bottom of the 4th" "Jays trail" 5]> ∅).

(** ** Tactics for running a cycle *)

Arguments datastore_GetAll : simpl never.
Arguments datastore_Put : simpl never.

Ltac run_cycle :=
  cbv [cycle mlb_handler fetch_games check_alert notify_slack orFail check
       raise effect mbind M_bind mret M_ret GetAll Put stored store emit
       store_if_new send_to_slack client_Post json_Marshal datastore events
       did current].

(** Splitting an explicit list of events at a post. *)
Ltac split_at pre H :=
  destruct pre as [|? pre]; simpl in H;
  [ try discriminate H; simplify_eq
  | first [ discriminate H | injection H as <- H; split_at pre H ] ].

(** Membership in an explicit list of events. *)
Ltac by_events H :=
  repeat (apply elem_of_cons in H as [H|H]; [try discriminate H|]);
  try (apply elem_of_nil in H; destruct H); try congruence.

(** ** The query order *)

Section query.
Implicit Types (ds : gmap Z Alert) (k : Z) (a : Alert).

Global Instance newer_first_total : Total newer_first.
Proof. intros [k1 a1] [k2 a2]. unfold newer_first. simpl. lia. Qed.

Global Instance newer_first_trans : Transitive newer_first.
Proof.
  intros [k1 a1] [k2 a2] [k3 a3]. unfold newer_first. simpl. lia.
Qed.

Lemma GetAll_perm ds : datastore_GetAll ds ≡ₚ map_to_list ds.
Proof. apply merge_sort_Permutation. Qed.

Lemma GetAll_elem ds k a : (k, a) ∈ datastore_GetAll ds ↔ ds !! k = Some a.
Proof. rewrite GetAll_perm. apply elem_of_map_to_list. Qed.

Lemma GetAll_nil ds : datastore_GetAll ds = [] ↔ ds = ∅.
Proof.
  rewrite <- map_to_list_empty_iff. split; intros H.
  - apply Permutation_nil_r. rewrite <- H. symmetry. apply GetAll_perm.
  - apply Permutation_nil_r. rewrite <- H. apply GetAll_perm.
Qed.

Lemma GetAll_sorted ds : StronglySorted newer_first (datastore_GetAll ds).
Proof. apply (StronglySorted_merge_sort newer_first). Qed.

(** An entity newer than every other one heads the query. *)
Lemma GetAll_head ds k a :
  ds !! k = Some a →
  (∀ k' a', ds !! k' = Some a' → k' ≠ k → Updated a' < Updated a) →
  ∃ rest, datastore_GetAll ds = (k, a) :: rest.
Proof.
  intros Hk Hmax.
  pose proof (GetAll_sorted ds) as Hs.
  apply GetAll_elem in Hk.
  destruct (datastore_GetAll ds) as [|[k1 a1] rest] eqn:Hq.
  { by apply elem_of_nil in Hk. }
  destruct (decide (k1 = k)) as [->|Hne].
  - assert (ds !! k = Some a1) as H1.
    { apply GetAll_elem. rewrite Hq. left. }
    assert (ds !! k = Some a) as H2.
    { apply GetAll_elem. by rewrite Hq. }
    rewrite H1 in H2. injection H2 as ->. by exists rest.
  - exfalso. apply elem_of_cons in Hk as [Heq|Hin]; [congruence|].
    apply StronglySorted_inv in Hs as [_ Hall].
    rewrite Forall_forall in Hall. specialize (Hall _ Hin).
    assert (ds !! k1 = Some a1) as H1.
    { apply GetAll_elem. rewrite Hq. left. }
    specialize (Hmax _ _ H1 Hne).
    unfold newer_first in Hall. simpl in Hall. lia.
Qed.
(** The head of the query is stored, and no stored entity is newer. *)
Lemma GetAll_head_newest ds key0 latest rest :
  datastore_GetAll ds = (key0, latest) :: rest →
  ds !! key0 = Some latest ∧
  ∀ k a, ds !! k = Some a → Updated a ≤ Updated latest.
Proof.
  intros Hq. split.
  { apply GetAll_elem. rewrite Hq. left. }
  intros k a Hk. apply GetAll_elem in Hk.
  pose proof (GetAll_sorted ds) as Hs. rewrite Hq in Hs, Hk.
  apply elem_of_cons in Hk as [[= -> ->]|Hin]; [lia|].
  apply StronglySorted_inv in Hs as [_ Hall].
  rewrite Forall_forall in Hall. specialize (Hall _ Hin).
  unfold newer_first in Hall. simpl in Hall. lia.
Qed.

End query.

(** ** The loop over the games *)

Lemma find_jays_None games : find_jays games = None ↔ Forall no_match games.
Proof.
  induction games as [|game rest IH]; simpl.
  - split; [constructor | done].
  - destruct (String.eqb_spec (HomeTeamCity game) "Toronto") as [Hh|Hh].
    { split; [done|]. intros [[? _] _]%Forall_cons. done. }
    destruct (String.eqb_spec (AwayTeamCity game) "Toronto") as [Ha|Ha].
    { split; [done|]. intros [[_ ?] _]%Forall_cons. done. }
    rewrite IH. split.
    + intros. by constructor.
    + by intros [_ ?]%Forall_cons.
Qed.

Lemma find_jays_skip pre rest :
  Forall no_match pre → find_jays (pre ++ rest) = find_jays rest.
Proof.
  induction 1 as [|game pre [Hh Ha] _ IH]; simpl; [done|].
  apply String.eqb_neq in Hh, Ha. by rewrite Hh, Ha.
Qed.

Lemma find_jays_Some games jaysGame areJaysHome :
  find_jays games = Some (jaysGame, areJaysHome) →
  ∃ pre post, games = pre ++ jaysGame :: post ∧ Forall no_match pre ∧
    if areJaysHome then HomeTeamCity jaysGame = "Toronto"
    else HomeTeamCity jaysGame ≠ "Toronto" ∧ AwayTeamCity jaysGame = "Toronto".
Proof.
  induction games as [|game rest IH]; simpl; [done|].
  destruct (String.eqb_spec (HomeTeamCity game) "Toronto") as [Hh|Hh].
  { intros [= <- <-]. by exists [], rest. }
  destruct (String.eqb_spec (AwayTeamCity game) "Toronto") as [Ha|Ha].
  { intros [= <- <-]. by exists [], rest. }
  intros (pre & post & -> & Hpre & Hg)%IH.
  exists (game :: pre), post. split_and!; [done| |done].
  by constructor.
Qed.

(** ** Running a cycle *)

Lemma cycle_extracted env ds jaysGame areJaysHome :
  extracts env jaysGame areJaysHome →
  cycle env ds = check_alert env jaysGame areJaysHome (mkWorld ds [UrlfetchGet]).
Proof.
  intros (Htz & Hget & games & Hdec & Hfind).
  run_cycle. by rewrite Htz, Hget, Hdec, Hfind.
Qed.

Lemma check_alert_read_failed env jaysGame areJaysHome w err :
  env_getall env = Some err →
  check_alert env jaysGame areJaysHome w =
    (Error err,
     mkWorld (datastore w)
       (events w ++ [DatastoreGetAll; LogCritical err; HttpError err 500])).
Proof.
  intros Hga. run_cycle. rewrite Hga. destruct w as [ds t]. simpl.
  by rewrite <- !app_assoc.
Qed.

Lemma check_alert_unchanged env jaysGame areJaysHome ds t key0 latest rest :
  env_getall env = None →
  datastore_GetAll ds = (key0, latest) :: rest →
  BriefText latest = BriefText (Alerts jaysGame) →
  check_alert env jaysGame areJaysHome (mkWorld ds t) =
    (Value tt, mkWorld ds (t ++ [DatastoreGetAll])).
Proof.
  intros Hga Hq Heq. run_cycle. rewrite Hga, Hq. simpl.
  by destruct (decide _).
Qed.

Lemma check_alert_written env jaysGame areJaysHome ds t :
  env_getall env = None → env_put env = None →
  let cur := current env jaysGame in
  ∀ key,
    match datastore_GetAll ds with
    | [] => key = IncompleteKey
    | (key0, latest) :: _ =>
        key = CompleteKey key0 ∧ BriefText latest ≠ BriefText (Alerts jaysGame)
    end →
    let body := mkSlackNotification
      [SlackAttachment.mk ""
         (pick_color areJaysHome (Runs (Linescore_ jaysGame)))
         (BriefText (Alerts jaysGame))] in
    let t' := t ++ [DatastoreGetAll; DatastorePut key cur None;
                    UrlfetchPost body] in
    check_alert env jaysGame areJaysHome (mkWorld ds t) =
      ((post_reply env t').1,
       mkWorld (datastore_Put key cur ds) (post_reply env t').2).
Proof.
  intros Hga Hput cur key Hkey body t'. subst cur body t'.
  run_cycle. unfold post_reply. rewrite Hga.
  destruct (datastore_GetAll ds) as [|[key0 latest] rest].
  - subst key. rewrite Hput. simpl.
    destruct (env_post env); simpl; by rewrite <- ?app_assoc.
  - destruct Hkey as [-> Hne]. simpl.
    destruct (decide _) as [_|[]]; [|done]. rewrite Hput. simpl.
    destruct (env_post env); simpl; by rewrite <- ?app_assoc.
Qed.

Lemma check_alert_write_failed env jaysGame areJaysHome ds t err :
  env_getall env = None → env_put env = Some err →
  let cur := current env jaysGame in
  ∀ key,
    match datastore_GetAll ds with
    | [] => key = IncompleteKey
    | (key0, latest) :: _ =>
        key = CompleteKey key0 ∧ BriefText latest ≠ BriefText (Alerts jaysGame)
    end →
    check_alert env jaysGame areJaysHome (mkWorld ds t) =
      (Error err,
       mkWorld ds (t ++ [DatastoreGetAll; DatastorePut key cur (Some err);
                         LogCritical err; HttpError err 500])).
Proof.
  intros Hga Hput cur key Hkey. subst cur.
  run_cycle. rewrite Hga.
  destruct (datastore_GetAll ds) as [|[key0 latest] rest].
  - subst key. rewrite Hput. simpl. by rewrite <- ?app_assoc.
  - destruct Hkey as [-> Hne]. simpl.
    destruct (decide _) as [_|[]]; [|done]. rewrite Hput. simpl.
    by rewrite <- ?app_assoc.
Qed.

(** Without a Jays game (or without a decoded scoreboard) the datastore and
    the webhook are never called. *)
Lemma cycle_not_extracted env ds :
  (∀ jaysGame areJaysHome, ¬ extracts env jaysGame areJaysHome) →
  datastore (cycle env ds).2 = ds ∧
  existsb (λ e, is_read e || is_put e || is_post e) (events (cycle env ds).2)
    = false.
Proof.
  intros Hnone. unfold extracts in Hnone. run_cycle.
  destruct (env_timezone env) as [err|]; [done|].
  destruct (env_get env) as [err|]; [done|].
  destruct (env_decode env) as [err|games]; [done|]. simpl.
  destruct (find_jays games) as [[jaysGame areJaysHome]|] eqn:Hfind; [|done].
  destruct (Hnone jaysGame areJaysHome). eauto.
Qed.

Lemma extracts_dec env :
  {p : Game * bool | extracts env p.1 p.2} +
  {∀ jaysGame areJaysHome, ¬ extracts env jaysGame areJaysHome}.
Proof.
  unfold extracts.
  destruct (env_timezone env) as [err|]; [right; by intros ?? [? _]|].
  destruct (env_get env) as [err|]; [right; by intros ?? (_ & ? & _)|].
  destruct (env_decode env) as [err|games].
  { right. by intros ?? (_ & _ & ? & ? & _). }
  destruct (find_jays games) as [p|] eqn:Hfind.
  - left. exists p. destruct p. eauto.
  - right. intros ?? (_ & _ & ? & [= <-] & ?). congruence.
Qed.

Lemma extracts_with_post p env jaysGame areJaysHome :
  extracts (with_post p env) jaysGame areJaysHome ↔
  extracts env jaysGame areJaysHome.
Proof. done. Qed.

Lemma write_key_changed ds jaysGame :
  changed (datastore_GetAll ds) (Alerts jaysGame) →
  match datastore_GetAll ds with
  | [] => write_key (datastore_GetAll ds) = IncompleteKey
  | (key0, latest) :: _ =>
      write_key (datastore_GetAll ds) = CompleteKey key0 ∧
      BriefText latest ≠ BriefText (Alerts jaysGame)
  end.
Proof. by destruct (datastore_GetAll ds) as [|[??]?]. Qed.

Lemma check_alert_same env jaysGame areJaysHome ds t :
  env_getall env = None →
  ¬ changed (datastore_GetAll ds) (Alerts jaysGame) →
  check_alert env jaysGame areJaysHome (mkWorld ds t) =
    (Value tt, mkWorld ds (t ++ [DatastoreGetAll])).
Proof.
  intros Hga Hsame.
  destruct (datastore_GetAll ds) as [|[key0 latest] rest] eqn:Hq; simpl in *.
  { done. }
  eapply check_alert_unchanged; [done..|].
  by destruct (decide (BriefText latest = BriefText (Alerts jaysGame))).
Qed.

(** ** The claims *)

(** C1. With a non-empty history the cycle compares with the most recent
    stored alert: the first entity of the query is stored and no stored
    entity has a later instant.  The cycle calls [datastore.Put] exactly when
    the brief text of the extracted alert differs from the brief text of
    that entity, and posts exactly when it differs and the write went
    through; when the brief texts are equal, whatever the long texts and the
    instants are, the cycle reads, writes nothing, posts nothing and replies
    200. *)
Theorem notify_iff_brief_text_differs env ds jaysGame areJaysHome key0 latest rest :
  extracts env jaysGame areJaysHome →
  env_getall env = None →
  datastore_GetAll ds = (key0, latest) :: rest →
  let out := cycle env ds in
  ds !! key0 = Some latest ∧
  (∀ k a, ds !! k = Some a → Updated a ≤ Updated latest) ∧
  (did is_put out ↔ BriefText latest ≠ BriefText (Alerts jaysGame)) ∧
  (did is_post out ↔
     BriefText latest ≠ BriefText (Alerts jaysGame) ∧ env_put env = None) ∧
  (BriefText latest = BriefText (Alerts jaysGame) →
     out = (Value tt, mkWorld ds [UrlfetchGet; DatastoreGetAll])).
Proof.
  intros Hex Hga Hq out. subst out.
  destruct (GetAll_head_newest ds key0 latest rest Hq) as [Hstored Hnewest].
  split; [exact Hstored|]. split; [exact Hnewest|].
  rewrite (cycle_extracted _ _ _ _ Hex).
  destruct (decide (BriefText latest = BriefText (Alerts jaysGame))) as [Heq|Hne].
  - rewrite (check_alert_unchanged _ _ _ _ _ _ _ _ Hga Hq Heq). simpl.
    unfold did. simpl. split_and!; [split; done| |done].
    split; [done|]. by intros [? _].
  - assert (match datastore_GetAll ds with
            | [] => CompleteKey key0 = IncompleteKey
            | (k, l) :: _ =>
                CompleteKey key0 = CompleteKey k ∧
                BriefText l ≠ BriefText (Alerts jaysGame)
            end) as Hkey by (by rewrite Hq).
    destruct (env_put env) as [err|] eqn:Hput.
    + rewrite (check_alert_write_failed _ _ _ _ _ _ Hga Hput _ Hkey).
      unfold did. simpl. split_and!; [done| |done].
      split; [done|]. by intros [_ ?].
    + rewrite (check_alert_written _ _ _ _ _ Hga Hput _ Hkey).
      unfold did, post_reply. destruct (env_post env); simpl; done.
Qed.

Lemma notify_iff_brief_text_differs_witness :
  let latest := mkAlert "Rain delay in the 9th" "Jays win" 10 in
  win_after_trail !! 2 = Some latest ∧
  (∀ k a, win_after_trail !! k = Some a → Updated a ≤ Updated latest) ∧
  cycle (calm [elsewhere; jays_at_home] 12) win_after_trail
    = (Value tt, mkWorld win_after_trail [UrlfetchGet; DatastoreGetAll]).
Proof.
  intros latest.
  destruct (notify_iff_brief_text_differs
              (calm [elsewhere; jays_at_home] 12) win_after_trail
              jays_at_home true 2 latest
              [(1, mkAlert "Bottom of the 4th" "Jays trail" 5)])
    as (Hstored & Hnewest & _ & _ & Hsame).
  - unfold extracts. simpl. split_and!; [done..|]. by eexists.
  - reflexivity.
  - vm_compute. reflexivity.
  - split_and!; [exact Hstored|exact Hnewest|]. apply Hsame. reflexivity.
Defined.

(** C5. When no game of the decoded scoreboard has Toronto as its home or
    away city, the cycle replies 200 after the fetch alone: the datastore is
    neither queried nor written, nothing is posted, nothing is logged as an
    error, and the datastore is as it was. *)
Theorem no_game_no_op env ds games :
  env_timezone env = None → env_get env = None →
  env_decode env = inr games →
  Forall no_match games →
  cycle env ds = (Value tt, mkWorld ds [UrlfetchGet]).
Proof.
  intros Htz Hget Hdec Hnone. apply find_jays_None in Hnone.
  run_cycle. by rewrite Htz, Hget, Hdec, Hnone.
Qed.

Lemma no_game_no_op_witness :
  cycle (calm [elsewhere] 9) (one_alert (mkAlert "" "Jays win" 3))
    = (Value tt, mkWorld (one_alert (mkAlert "" "Jays win" 3)) [UrlfetchGet]).
Proof.
  apply (no_game_no_op (calm [elsewhere] 9) _ [elsewhere]); try reflexivity.
  repeat constructor; simpl; discriminate.
Defined.

(** C6. When the query of the latest alert fails, the cycle stops there: it
    logs the error and replies 500 with its message, calls neither
    [datastore.Put] nor the webhook, and leaves the datastore as it was. *)
Theorem read_failure_aborts env ds jaysGame areJaysHome err :
  extracts env jaysGame areJaysHome →
  env_getall env = Some err →
  cycle env ds =
    (Error err,
     mkWorld ds [UrlfetchGet; DatastoreGetAll; LogCritical err;
                 HttpError err 500]).
Proof.
  intros Hex Hga. rewrite (cycle_extracted _ _ _ _ Hex).
  by rewrite (check_alert_read_failed _ _ _ _ _ Hga).
Qed.

Lemma read_failure_aborts_witness :
  let env := mkEnv None None (inr [jays_at_home]) (Some "datastore: timeout")
                   9 None (Responded 200) in
  let ds := one_alert (mkAlert "" "Jays trail" 3) in
  cycle env ds =
    (Error "datastore: timeout",
     mkWorld ds [UrlfetchGet; DatastoreGetAll;
                 LogCritical "datastore: timeout";
                 HttpError "datastore: timeout" 500]) ∧
  did is_put (cycle env ds) = false ∧ did is_post (cycle env ds) = false.
Proof.
  intros env ds.
  assert (extracts env jays_at_home true) as Hex.
  { unfold extracts. simpl. split_and!; [done..|]. by eexists. }
  pose proof (read_failure_aborts env ds jays_at_home true _ Hex eq_refl) as H.
  split; [exact H|]. rewrite H. split; reflexivity.
Defined.

(** C10. The loop returns the first game of the sequence that has Toronto as
    its home or away city, every game before it having neither; in that game
    the home city is tested first, so [areJaysHome] is set exactly when the
    home city is Toronto, in particular when both cities are. *)
Theorem first_match_home_first games jaysGame areJaysHome :
  find_jays games = Some (jaysGame, areJaysHome) ↔
  ∃ pre post, games = pre ++ jaysGame :: post ∧ Forall no_match pre ∧
    if areJaysHome then HomeTeamCity jaysGame = "Toronto"
    else HomeTeamCity jaysGame ≠ "Toronto" ∧ AwayTeamCity jaysGame = "Toronto".
Proof.
  split; [apply find_jays_Some|].
  intros (pre & post & -> & Hpre & Hrole).
  rewrite (find_jays_skip _ _ Hpre). simpl.
  destruct areJaysHome.
  - apply String.eqb_eq in Hrole. by rewrite Hrole.
  - destruct Hrole as [Hh%String.eqb_neq Ha%String.eqb_eq].
    by rewrite Hh, Ha.
Qed.

Lemma first_match_home_first_witness :
  let both := mkGame "Toronto" "Toronto" (mkAlert "" "Intrasquad" 0)
                     (mkLinescore (mkRuns 0 0)) in
  find_jays [elsewhere; both; jays_at_home] = Some (both, true).
Proof.
  intros both.
  apply (proj2 (first_match_home_first
                  [elsewhere; both; jays_at_home] both true)).
  exists [elsewhere], [jays_at_home]. split_and!; [reflexivity| |reflexivity].
  repeat constructor; simpl; discriminate.
Defined.

Lemma pick_color_category areJaysHome r :
  pick_color areJaysHome r =
    category_color (spec_category areJaysHome (Home r) (Away r)).
Proof.
  unfold pick_color, spec_category.
  destruct (Z.eqb_spec (Home r) (Away r)) as [->|Hne].
  - rewrite Z.gtb_ltb, Z.ltb_irrefl. by destruct areJaysHome.
  - rewrite !Z.gtb_ltb.
    destruct (Z.ltb_spec (Away r) (Home r)), (Z.ltb_spec (Home r) (Away r));
      destruct areJaysHome; simpl; try done; lia.
Qed.

(** C4. Whenever a cycle posts, the colour of the attachment is the colour of
    the category derived from the run counts and the matched role: gray for
    equal counts; green when the side Toronto plays on has more runs and red
    when the other side has more.  The text is the brief text, unchanged. *)
Theorem color_follows_category env ds jaysGame areJaysHome body :
  extracts env jaysGame areJaysHome →
  UrlfetchPost body ∈ events (cycle env ds).2 →
  let home := Home (Runs (Linescore_ jaysGame)) in
  let away := Away (Runs (Linescore_ jaysGame)) in
  ∃ color,
    body = mkSlackNotification
             [SlackAttachment.mk "" color (BriefText (Alerts jaysGame))] ∧
    color = category_color (spec_category areJaysHome home away) ∧
    (home = away → color = "#808080") ∧
    (areJaysHome = true → home > away → color = "#00cc00") ∧
    (areJaysHome = true → away > home → color = "#e50000") ∧
    (areJaysHome = false → away > home → color = "#00cc00") ∧
    (areJaysHome = false → home > away → color = "#e50000").
Proof.
  intros Hex Hin home away.
  exists (category_color (spec_category areJaysHome home away)).
  split.
  - rewrite (cycle_extracted _ _ _ _ Hex) in Hin.
    subst home away. rewrite <- pick_color_category.
    destruct (env_getall env) as [err|] eqn:Hga.
    { rewrite (check_alert_read_failed _ _ _ _ _ Hga) in Hin. simpl in Hin.
      by_events Hin. }
    destruct (decide (changed (datastore_GetAll ds) (Alerts jaysGame)))
      as [Hch|Hsame].
    2:{ rewrite (check_alert_same _ _ _ _ _ Hga Hsame) in Hin. simpl in Hin.
        by_events Hin. }
    apply write_key_changed in Hch.
    destruct (env_put env) as [err|] eqn:Hput.
    { rewrite (check_alert_write_failed _ _ _ _ _ _ Hga Hput _ Hch) in Hin.
      simpl in Hin. by_events Hin. }
    rewrite (check_alert_written _ _ _ _ _ Hga Hput _ Hch) in Hin.
    unfold post_reply in Hin. destruct (env_post env); simpl in Hin;
      by_events Hin.
  - unfold spec_category.
    destruct (Z.eqb_spec home away) as [Heq|Hne].
    { split_and!; [done|done|intros; lia..]. }
    rewrite !Z.gtb_ltb.
    destruct (Z.ltb_spec away home), (Z.ltb_spec home away);
      destruct areJaysHome; simpl; split_and!; try done; intros; lia.
Qed.

Lemma color_follows_category_witness :
  ∃ color,
    mkSlackNotification [SlackAttachment.mk "" "#00cc00" "Jays win"] =
      mkSlackNotification [SlackAttachment.mk "" color "Jays win"] ∧
    color = category_color Favorable.
Proof.
  destruct (color_follows_category (calm [jays_at_home] 9) ∅ jays_at_home true
    (mkSlackNotification [SlackAttachment.mk "" "#00cc00" "Jays win"]))
    as (color & Hbody & Hcolor & _).
  - unfold extracts. simpl. split_and!; [done..|]. by eexists.
  - vm_compute. repeat constructor.
  - exists color. split; [exact Hbody|exact Hcolor].
Defined.

Lemma events_no_post pre body post t :
  existsb (λ e, is_read e || is_put e || is_post e) t = false →
  t ≠ pre ++ UrlfetchPost body :: post.
Proof.
  intros Hno ->. rewrite existsb_app in Hno. simpl in Hno.
  by rewrite orb_true_r in Hno.
Qed.

(** C2. A post is only ever made after a [datastore.Put] of the same cycle
    that returned no error: if the events of a cycle contain a post, then the
    write did not fail, a successful [datastore.Put] of the current alert
    comes earlier in the events, and the datastore the cycle leaves is the
    written one, the alert stored under its key, whatever the webhook then
    answers. *)
Theorem store_before_post env ds pre body post :
  events (cycle env ds).2 = pre ++ UrlfetchPost body :: post →
  env_put env = None ∧
  ∃ jaysGame areJaysHome key,
    extracts env jaysGame areJaysHome ∧
    DatastorePut key (current env jaysGame) None ∈ pre ∧
    datastore (cycle env ds).2 = datastore_Put key (current env jaysGame) ds ∧
    datastore (cycle env ds).2 !! put_id key ds = Some (current env jaysGame) ∧
    ∀ p, datastore (cycle (with_post p env) ds).2 = datastore (cycle env ds).2.
Proof.
  intros Hev.
  destruct (extracts_dec env) as [[[jaysGame areJaysHome] Hex]|Hnone].
  2:{ destruct (cycle_not_extracted env ds Hnone) as [_ Hno].
      by destruct (events_no_post pre body post _ Hno). }
  simpl in Hex. rewrite (cycle_extracted _ _ _ _ Hex) in Hev |- *.
  destruct (env_getall env) as [err|] eqn:Hga.
  { rewrite (check_alert_read_failed _ _ _ _ _ Hga) in Hev. simpl in Hev.
    split_at pre Hev. }
  destruct (decide (changed (datastore_GetAll ds) (Alerts jaysGame)))
    as [Hch|Hsame].
  2:{ rewrite (check_alert_same _ _ _ _ _ Hga Hsame) in Hev. simpl in Hev.
      split_at pre Hev. }
  apply write_key_changed in Hch.
  destruct (env_put env) as [err|] eqn:Hput.
  { rewrite (check_alert_write_failed _ _ _ _ _ _ Hga Hput _ Hch) in Hev.
    simpl in Hev. split_at pre Hev. }
  split; [done|].
  exists jaysGame, areJaysHome, (write_key (datastore_GetAll ds)).
  rewrite (check_alert_written _ _ _ _ _ Hga Hput _ Hch) in Hev |- *.
  split_and!.
  - done.
  - unfold post_reply in Hev. destruct (env_post env); simpl in Hev;
      split_at pre Hev; rewrite !elem_of_cons; tauto.
  - done.
  - simpl. unfold datastore_Put. apply lookup_insert_eq.
  - intros p.
    rewrite (cycle_extracted (with_post p env) _ _ _
               (proj2 (extracts_with_post p env _ _) Hex)).
    by rewrite (check_alert_written (with_post p env) _ _ _ _ Hga Hput _ Hch).
Qed.

Lemma store_before_post_witness :
  env_put reset_by_peer = None ∧
  ∃ jaysGame areJaysHome key,
    extracts reset_by_peer jaysGame areJaysHome ∧
    DatastorePut key (current reset_by_peer jaysGame) None
      ∈ [UrlfetchGet; DatastoreGetAll;
         DatastorePut IncompleteKey
           (mkAlert "Jays take the opener" "Jays win" 9) None] ∧
    datastore (cycle reset_by_peer ∅).2
      = datastore_Put key (current reset_by_peer jaysGame) ∅ ∧
    datastore (cycle reset_by_peer ∅).2 !! put_id key ∅
      = Some (current reset_by_peer jaysGame) ∧
    ∀ p, datastore (cycle (with_post p reset_by_peer) ∅).2
         = datastore (cycle reset_by_peer ∅).2.
Proof.
  apply (store_before_post reset_by_peer ∅ _
    (mkSlackNotification [SlackAttachment.mk "" "#00cc00" "Jays win"])
    [LogCritical "connection reset"; HttpError "connection reset" 500]).
  vm_compute. reflexivity.
Defined.

(** A completed incomplete key names no entity stored so far. *)
Lemma incomplete_key_unused (ds : gmap Z Alert) :
  ds !! put_id IncompleteKey ds = None.
Proof. simpl. apply not_elem_of_dom. apply is_fresh. Qed.

(** C3. With an empty history and an extracted game, the cycle makes exactly
    one [datastore.Put], of the current alert under an incomplete key; when
    that write goes through, the alert is stored under an id that held
    nothing before, every entity stored before is still there, there is one
    entity more, and the brief text is posted. *)
Theorem empty_history_inserts env ds jaysGame areJaysHome :
  extracts env jaysGame areJaysHome →
  env_getall env = None →
  datastore_GetAll ds = [] →
  let out := cycle env ds in
  let cur := current env jaysGame in
  filter is_put (events out.2) = [DatastorePut IncompleteKey cur (env_put env)] ∧
  (env_put env = None →
     did is_post out ∧
     ds !! put_id IncompleteKey ds = None ∧
     datastore out.2 = <[put_id IncompleteKey ds := cur]> ds ∧
     size (datastore out.2) = S (size ds) ∧
     (∀ k a, ds !! k = Some a → datastore out.2 !! k = Some a) ∧
     datastore_GetAll (datastore out.2) = [(put_id IncompleteKey ds, cur)]).
Proof.
  intros Hex Hga Hq out cur. subst out cur.
  rewrite (cycle_extracted _ _ _ _ Hex).
  assert (match datastore_GetAll ds with
          | [] => IncompleteKey = IncompleteKey
          | (k, l) :: _ =>
              IncompleteKey = CompleteKey k ∧
              BriefText l ≠ BriefText (Alerts jaysGame)
          end) as Hkey by (by rewrite Hq).
  pose proof (incomplete_key_unused ds) as Hfresh.
  destruct (env_put env) as [err|] eqn:Hput.
  { rewrite (check_alert_write_failed _ _ _ _ _ _ Hga Hput _ Hkey).
    split; [done|]. intros [=]. }
  rewrite (check_alert_written _ _ _ _ _ Hga Hput _ Hkey).
  split.
  { unfold post_reply. by destruct (env_post env). }
  intros _. split_and!.
  - unfold did, post_reply. by destruct (env_post env).
  - done.
  - done.
  - simpl. unfold datastore_Put. by apply map_size_insert_None.
  - intros k a Hk. simpl. unfold datastore_Put.
    rewrite lookup_insert_ne; [done|]. intros <-. congruence.
  - simpl. unfold datastore_Put. apply GetAll_nil in Hq as ->.
    unfold datastore_GetAll. rewrite insert_empty, map_to_list_singleton.
    reflexivity.
Qed.

Lemma empty_history_inserts_witness :
  let out := cycle (calm [jays_at_home] 9) ∅ in
  did is_post out ∧
  datastore_GetAll (datastore out.2)
    = [(put_id IncompleteKey ∅, current (calm [jays_at_home] 9) jays_at_home)].
Proof.
  intros out.
  destruct (empty_history_inserts (calm [jays_at_home] 9) ∅ jays_at_home true)
    as [_ H].
  - unfold extracts. simpl. split_and!; [done..|]. by eexists.
  - reflexivity.
  - reflexivity.
  - destruct (H eq_refl) as (Hpost & _ & _ & _ & _ & Hq). by split.
Defined.

(** C7, as stated, fails: the cycle posts, the webhook answers 500, which
    the specification counts as a failed delivery, and the reply is 200
    with nothing logged. *)
Lemma non_2xx_not_surfaced :
  did is_post (cycle refused ∅) = true ∧
  delivery_failure (env_post refused) = true ∧
  (cycle refused ∅).1 = Value tt ∧
  status (cycle refused ∅).1 = 200 ∧
  did is_error (cycle refused ∅) = false.
Proof. vm_compute. by repeat split. Qed.

(** C7, amended. When a cycle posts, the reply is 500, with the error logged
    and its message in the reply, exactly when [client.Post] returns an
    error (the network failed or the request could not be built from the
    destination); a response, of whatever status, gives the reply 200. *)
Theorem post_error_surfaced env ds :
  did is_post (cycle env ds) →
  match env_post env with
  | Responded _ =>
      (cycle env ds).1 = Value tt ∧ did is_error (cycle env ds) = false
  | NetworkFailure err | MalformedURL err =>
      (cycle env ds).1 = Error err ∧
      ∃ t, events (cycle env ds).2 = t ++ [LogCritical err; HttpError err 500]
  end.
Proof.
  intros Hpost.
  destruct (extracts_dec env) as [[[jaysGame areJaysHome] Hex]|Hnone].
  2:{ destruct (cycle_not_extracted env ds Hnone) as [_ Hno].
      unfold did in Hpost. apply Is_true_true in Hpost.
      apply existsb_exists in Hpost as (e & Hin & He).
      rewrite <- not_true_iff_false in Hno. destruct Hno.
      apply existsb_exists. exists e. split; [done|]. by rewrite He, orb_true_r. }
  simpl in Hex. rewrite (cycle_extracted _ _ _ _ Hex) in Hpost |- *.
  destruct (env_getall env) as [err|] eqn:Hga.
  { by rewrite (check_alert_read_failed _ _ _ _ _ Hga) in Hpost. }
  destruct (decide (changed (datastore_GetAll ds) (Alerts jaysGame)))
    as [Hch|Hsame].
  2:{ by rewrite (check_alert_same _ _ _ _ _ Hga Hsame) in Hpost. }
  apply write_key_changed in Hch.
  destruct (env_put env) as [err|] eqn:Hput.
  { by rewrite (check_alert_write_failed _ _ _ _ _ _ Hga Hput _ Hch) in Hpost. }
  rewrite (check_alert_written _ _ _ _ _ Hga Hput _ Hch).
  unfold post_reply. destruct (env_post env); simpl; [done|..];
    (split; [done|]); by eexists [_; _; _; _].
Qed.

Lemma post_error_surfaced_witness :
  (cycle reset_by_peer ∅).1 = Error "connection reset" ∧
  ∃ t, events (cycle reset_by_peer ∅).2 =
         t ++ [LogCritical "connection reset";
               HttpError "connection reset" 500].
Proof.
  apply (post_error_surfaced reset_by_peer ∅). vm_compute. exact I.
Defined.

(** A cycle leaves the datastore as it was or as one [datastore.Put] made it. *)
Lemma cycle_datastore env ds :
  datastore (cycle env ds).2 = ds ∨
  ∃ key src, datastore (cycle env ds).2 = datastore_Put key src ds.
Proof.
  destruct (extracts_dec env) as [[[jaysGame areJaysHome] Hex]|Hnone].
  2:{ left. apply (cycle_not_extracted env ds Hnone). }
  simpl in Hex. rewrite (cycle_extracted _ _ _ _ Hex).
  destruct (env_getall env) as [err|] eqn:Hga.
  { left. by rewrite (check_alert_read_failed _ _ _ _ _ Hga). }
  destruct (decide (changed (datastore_GetAll ds) (Alerts jaysGame)))
    as [Hch|Hsame].
  2:{ left. by rewrite (check_alert_same _ _ _ _ _ Hga Hsame). }
  apply write_key_changed in Hch.
  destruct (env_put env) as [err|] eqn:Hput.
  { left. by rewrite (check_alert_write_failed _ _ _ _ _ _ Hga Hput _ Hch). }
  right. rewrite (check_alert_written _ _ _ _ _ Hga Hput _ Hch). eauto.
Qed.

(** C8. No cycle removes an entity: every key stored before is stored after.
    When the brief text differs from that of the first entity of a non-empty
    query and the write goes through, the cycle makes one [datastore.Put],
    under the key of that first entity, which is the most recent one: it is
    stored and no stored entity has a later instant.  The current alert
    replaces it there, the keys and the number of entities are as before,
    and the entity under every other key, so every older one, is
    untouched. *)
Theorem overwrites_latest_in_place env ds :
  let ds' := datastore (cycle env ds).2 in
  dom ds ⊆ dom ds' ∧
  ∀ jaysGame areJaysHome key0 latest rest,
    extracts env jaysGame areJaysHome →
    env_getall env = None →
    datastore_GetAll ds = (key0, latest) :: rest →
    BriefText latest ≠ BriefText (Alerts jaysGame) →
    env_put env = None →
    filter is_put (events (cycle env ds).2)
      = [DatastorePut (CompleteKey key0) (current env jaysGame) None] ∧
    ds !! key0 = Some latest ∧
    (∀ k a, ds !! k = Some a → Updated a ≤ Updated latest) ∧
    ds' !! key0 = Some (current env jaysGame) ∧
    (∀ k, k ≠ key0 → ds' !! k = ds !! k) ∧
    dom ds' = dom ds ∧
    size ds' = size ds.
Proof.
  intros ds'. subst ds'. split.
  { destruct (cycle_datastore env ds) as [->|(key & src & ->)]; [done|].
    unfold datastore_Put. apply dom_insert_subseteq. }
  intros jaysGame areJaysHome key0 latest rest Hex Hga Hq Hne Hput.
  rewrite (cycle_extracted _ _ _ _ Hex).
  assert (match datastore_GetAll ds with
          | [] => CompleteKey key0 = IncompleteKey
          | (k, l) :: _ =>
              CompleteKey key0 = CompleteKey k ∧
              BriefText l ≠ BriefText (Alerts jaysGame)
          end) as Hkey by (by rewrite Hq).
  rewrite (check_alert_written _ _ _ _ _ Hga Hput _ Hkey).
  destruct (GetAll_head_newest ds key0 latest rest Hq) as [Hk0 Hnewest].
  simpl. unfold datastore_Put. simpl. split_and!.
  - unfold post_reply. by destruct (env_post env).
  - done.
  - exact Hnewest.
  - apply lookup_insert_eq.
  - intros k Hk. by apply lookup_insert_ne.
  - by apply dom_insert_lookup_L.
  - by apply map_size_insert_Some.
Qed.

Lemma overwrites_latest_in_place_witness :
  let ds' := datastore (cycle (calm [jays_at_home] 12) lead_after_win).2 in
  (∀ k a, lead_after_win !! k = Some a → Updated a ≤ 10) ∧
  ds' !! 2 = Some (mkAlert "Jays take the opener" "Jays win" 12) ∧
  (∀ k, k ≠ 2 → ds' !! k = lead_after_win !! k) ∧
  size ds' = size lead_after_win.
Proof.
  intros ds'.
  destruct (proj2 (overwrites_latest_in_place (calm [jays_at_home] 12)
                     lead_after_win)
              jays_at_home true 2 (mkAlert "Top of the 9th" "Jays lead" 10)
              [(1, mkAlert "Final, last night" "Jays win" 5)])
    as (_ & _ & Hnewest & H2 & Hothers & _ & Hsize).
  - unfold extracts. simpl. split_and!; [done..|]. by eexists.
  - reflexivity.
  - vm_compute. reflexivity.
  - simpl. discriminate.
  - reflexivity.
  - split_and!; [exact Hnewest|exact H2|exact Hothers|exact Hsize].
Defined.

(** C9, as stated, fails: the datastore holds two alerts, the cycle writes
    the current alert over the newer one with an instant that lies before
    that of the other, and the query then starts with the other alert,
    whose brief text is not the one just stored. *)
Lemma stale_entry_read_back :
  let env := calm [jays_at_home] 3 in
  let out := cycle env two_alerts in
  filter is_put (events out.2)
    = [DatastorePut (CompleteKey 1) (current env jays_at_home) None] ∧
  out.1 = Value tt ∧
  ∃ latest, head (datastore_GetAll (datastore out.2)) = Some (2, latest) ∧
            BriefText latest = "Jays trail" ∧
            BriefText latest ≠ BriefText (current env jays_at_home).
Proof.
  vm_compute. split_and!; [reflexivity..|].
  eexists. split_and!; [reflexivity..|discriminate].
Qed.

(** C9, amended. When a cycle writes the current alert and every entity
    other than the first of the query it read has an instant before the
    current one (so, in particular, when the history was empty or had one
    entry), the query on the datastore it leaves starts with the current
    alert: the latest alert read back has the brief text just stored. *)
Theorem latest_after_write env ds jaysGame areJaysHome :
  extracts env jaysGame areJaysHome →
  env_getall env = None →
  env_put env = None →
  did is_put (cycle env ds) →
  (∀ k a, (k, a) ∈ tail (datastore_GetAll ds) → Updated a < env_now env) →
  ∃ key latest rest,
    datastore_GetAll (datastore (cycle env ds).2) = (key, latest) :: rest ∧
    latest = current env jaysGame ∧
    BriefText latest = BriefText (Alerts jaysGame).
Proof.
  intros Hex Hga Hput Hwrote Holder.
  rewrite (cycle_extracted _ _ _ _ Hex) in Hwrote |- *.
  destruct (decide (changed (datastore_GetAll ds) (Alerts jaysGame)))
    as [Hch|Hsame].
  2:{ by rewrite (check_alert_same _ _ _ _ _ Hga Hsame) in Hwrote. }
  apply write_key_changed in Hch.
  rewrite (check_alert_written _ _ _ _ _ Hga Hput _ Hch). simpl.
  set (key := put_id (write_key (datastore_GetAll ds)) ds).
  destruct (GetAll_head
              (datastore_Put (write_key (datastore_GetAll ds))
                             (current env jaysGame) ds)
              key (current env jaysGame)) as [rest' Hq'].
  - unfold datastore_Put. apply lookup_insert_eq.
  - intros k' a' Hk' Hne'. unfold datastore_Put in Hk'.
    rewrite lookup_insert_ne in Hk' by done. simpl.
    apply (Holder k' a'). apply GetAll_elem in Hk'. subst key.
    destruct (datastore_GetAll ds) as [|[key0 latest] rest] eqn:Hq.
    { by apply elem_of_nil in Hk'. }
    simpl in *. apply elem_of_cons in Hk' as [[= -> ->]|Hin]; [done|done].
  - exists key, (current env jaysGame), rest'. done.
Qed.

Lemma latest_after_write_witness :
  ∃ key latest rest,
    datastore_GetAll (datastore (cycle (calm [jays_at_home] 12) two_alerts).2)
      = (key, latest) :: rest ∧
    latest = current (calm [jays_at_home] 12) jays_at_home ∧
    BriefText latest = "Jays win".
Proof.
  apply (latest_after_write (calm [jays_at_home] 12) two_alerts jays_at_home true).
  - unfold extracts. simpl. split_and!; [done..|]. by eexists.
  - reflexivity.
  - reflexivity.
  - vm_compute. exact I.
  - intros k a Hin. vm_compute in Hin.
    apply elem_of_cons in Hin as [[= -> ->]|Hin]; [simpl; lia|].
    by apply elem_of_nil in Hin.
Defined.

(** ** The address of the scoreboard *)

Lemma Itoa_parse n : NilZero.int_of_string (Itoa n) = Some (Z.to_int n).
Proof.
  apply NilZero.isi; destruct n; simpl; intros [= H]; try discriminate;
    by apply DecimalPos.Unsigned.to_uint_nonnil in H.
Qed.

Lemma decimal_value_Itoa n : decimal_value (Itoa n) = Some n.
Proof.
  unfold decimal_value. rewrite Itoa_parse. simpl.
  by rewrite DecimalZ.of_to.
Qed.

Lemma decimal_value_zero_pad n : decimal_value (zero_pad (Itoa n)) = Some n.
Proof.
  unfold zero_pad.
  destruct (Nat.eqb_spec (String.length (Itoa n)) 1) as [Hlen|_].
  2:{ apply decimal_value_Itoa. }
  pose proof (decimal_value_Itoa n) as Hv. unfold decimal_value in *.
  destruct (Itoa n) as [|a [|b s]]; try discriminate. clear Hlen.
  unfold NilZero.int_of_string in Hv.
  destruct (Ascii.eqb a "-"); [discriminate|].
  change (NilZero.int_of_string (String.append "0" (String a "")))
    with (option_map Decimal.Pos
            (uint_of_char "0" (NilZero.uint_of_string (String a "")))).
  destruct (NilZero.uint_of_string (String a "")) as [u|]; [|discriminate].
  exact Hv.
Qed.

(** X1. Padding does not change the number and leaves no one-character
    string: for every integer, the month or day string that goes into the
    address, read as a decimal numeral, is that integer, and it has at least
    two characters. *)
Theorem zero_pad_keeps_value n :
  decimal_value (zero_pad (Itoa n)) = Some n ∧
  (2 ≤ String.length (zero_pad (Itoa n)))%nat.
Proof.
  split; [apply decimal_value_zero_pad|].
  pose proof (decimal_value_Itoa n) as Hv. unfold zero_pad.
  destruct (Nat.eqb_spec (String.length (Itoa n)) 1) as [Hlen|Hlen].
  - destruct (Itoa n) as [|a [|b s]]; try discriminate. simpl. lia.
  - destruct (Itoa n) as [|a [|b s]]; simpl in *; [discriminate|done|lia].
Qed.

Lemma two_digits_upto_99 :
  forallb (λ k, String.eqb (zero_pad (Itoa (Z.of_nat k))) (two_digits (Z.of_nat k)))
          (seq 0 100) = true.
Proof. vm_compute. reflexivity. Qed.

(** X2. For a number from 0 to 99, so for every month and every day of a
    month, the string that goes into the address has exactly two
    characters: the tens digit, which is 0 below ten, and the units digit. *)
Theorem zero_pad_two_digits n :
  0 ≤ n ≤ 99 → zero_pad (Itoa n) = two_digits n.
Proof.
  intros Hn. pose proof two_digits_upto_99 as Hall.
  rewrite forallb_forall in Hall.
  specialize (Hall (Z.to_nat n)). rewrite Z2Nat.id in Hall by lia.
  apply String.eqb_eq, Hall. apply in_seq. lia.
Qed.

Lemma zero_pad_two_digits_witness : zero_pad (Itoa 7) = two_digits 7.
Proof. apply (zero_pad_two_digits 7). lia. Defined.

Lemma append_cancel p x y : String.append p x = String.append p y → x = y.
Proof. induction p as [|c p IH]; simpl; [done|]. intros [= H]. auto. Qed.

Lemma split_at_slash s1 s2 r1 r2 :
  slash_free s1 → slash_free s2 →
  String.append s1 (String "/" r1) = String.append s2 (String "/" r2) →
  s1 = s2 ∧ r1 = r2.
Proof.
  revert s2. induction s1 as [|c1 s1 IH]; intros [|c2 s2]; simpl.
  - by intros _ _ [= ->].
  - intros _ H [= <- _]. by destruct H.
  - intros H _ [= -> _]. by destruct H.
  - intros [_ H1]%andb_prop_elim [_ H2]%andb_prop_elim [= -> H].
    destruct (IH s2 H1 H2 H) as [-> ->]. done.
Qed.

Lemma slash_free_uint d : slash_free (NilEmpty.string_of_uint d).
Proof. induction d; simpl; done. Qed.

Lemma slash_free_Itoa n : slash_free (Itoa n).
Proof.
  unfold Itoa. destruct (Z.to_int n) as [d|d]; simpl.
  - destruct d; try done; apply (slash_free_uint _).
  - destruct d; try done; apply (slash_free_uint _).
Qed.

Lemma slash_free_zero_pad n : slash_free (zero_pad (Itoa n)).
Proof.
  unfold zero_pad. destruct (Nat.eqb _ _); [simpl|]; apply slash_free_Itoa.
Qed.

(** X3. Two dates with the same address are the same date: the address
    determines the year, the month and the day. *)
Theorem scoreboard_url_inj y m d y' m' d' :
  scoreboard_url y m d = scoreboard_url y' m' d' → y = y' ∧ m = m' ∧ d = d'.
Proof.
  unfold scoreboard_url. intros H.
  apply append_cancel in H.
  apply split_at_slash in H as [Hy H]; [|apply slash_free_Itoa..].
  apply (append_cancel "month_") in H.
  apply split_at_slash in H as [Hm H]; [|apply slash_free_zero_pad..].
  apply (append_cancel "day_") in H.
  apply split_at_slash in H as [Hd _]; [|apply slash_free_zero_pad..].
  pose proof (decimal_value_Itoa y) as Ey. rewrite Hy, decimal_value_Itoa in Ey.
  pose proof (decimal_value_zero_pad m) as Em.
  rewrite Hm, decimal_value_zero_pad in Em.
  pose proof (decimal_value_zero_pad d) as Ed.
  rewrite Hd, decimal_value_zero_pad in Ed.
  by simplify_eq.
Qed.

Lemma scoreboard_url_inj_witness :
  2016 = 2016 ∧ 4 = 4 ∧ 7 = 7.
Proof. apply (scoreboard_url_inj 2016 4 7 2016 4 7). reflexivity. Defined.

(** ** Every way a cycle can go *)

Lemma cycle_fetch_fails env ds err t :
  fetch_fails env err t →
  cycle env ds =
    (Error err, mkWorld ds (t ++ [LogCritical err; HttpError err 500])).
Proof.
  intros [[Htz ->]|(Htz & -> & [Hget|[Hget Hdec]])]; run_cycle.
  - by rewrite Htz.
  - by rewrite Htz, Hget.
  - by rewrite Htz, Hget, Hdec.
Qed.

Lemma fetch_cases env :
  (∃ err t, fetch_fails env err t) ∨
  (env_timezone env = None ∧ env_get env = None ∧
   ∃ games, env_decode env = inr games).
Proof.
  unfold fetch_fails.
  destruct (env_timezone env) as [err|]; [left; exists err, []; auto|].
  destruct (env_get env) as [err|].
  { left. exists err, [UrlfetchGet]. auto 6. }
  destruct (env_decode env) as [err|games].
  { left. exists err, [UrlfetchGet]. auto 8. }
  right. eauto.
Qed.

(** The shapes of a cycle that found the Jays game. *)
Lemma check_alert_cases env jaysGame areJaysHome ds t :
  let alerts := datastore_GetAll ds in
  let cur := current env jaysGame in
  let key := write_key alerts in
  let body := mkSlackNotification
    [SlackAttachment.mk ""
       (pick_color areJaysHome (Runs (Linescore_ jaysGame)))
       (BriefText (Alerts jaysGame))] in
  let out := check_alert env jaysGame areJaysHome (mkWorld ds t) in
  (∃ err, env_getall env = Some err ∧
     out = (Error err,
            mkWorld ds (t ++ [DatastoreGetAll; LogCritical err;
                              HttpError err 500]))) ∨
  (env_getall env = None ∧ ¬ changed alerts (Alerts jaysGame) ∧
     out = (Value tt, mkWorld ds (t ++ [DatastoreGetAll]))) ∨
  (∃ err, env_getall env = None ∧ changed alerts (Alerts jaysGame) ∧
     env_put env = Some err ∧
     out = (Error err,
            mkWorld ds (t ++ [DatastoreGetAll; DatastorePut key cur (Some err);
                              LogCritical err; HttpError err 500]))) ∨
  (env_getall env = None ∧ changed alerts (Alerts jaysGame) ∧
     env_put env = None ∧
     out = ((post_reply env (t ++ [DatastoreGetAll; DatastorePut key cur None;
                                   UrlfetchPost body])).1,
            mkWorld (datastore_Put key cur ds)
              (post_reply env (t ++ [DatastoreGetAll;
                                     DatastorePut key cur None;
                                     UrlfetchPost body])).2)).
Proof.
  intros alerts cur key body out. subst alerts cur key body out.
  destruct (env_getall env) as [err|] eqn:Hga.
  { left. exists err. split; [done|]. by apply check_alert_read_failed. }
  right.
  destruct (decide (changed (datastore_GetAll ds) (Alerts jaysGame)))
    as [Hch|Hsame].
  2:{ left. split_and!; [done..|]. by apply check_alert_same. }
  right. pose proof (write_key_changed _ _ Hch) as Hkey.
  destruct (env_put env) as [err|] eqn:Hput.
  - left. exists err. split_and!; [done..|].
    by apply (check_alert_write_failed _ _ _ _ _ _ Hga Hput _ Hkey).
  - right. split_and!; [done..|].
    by apply (check_alert_written _ _ _ _ _ Hga Hput _ Hkey).
Qed.

Lemma cycle_not_found env ds games :
  env_timezone env = None → env_get env = None →
  env_decode env = inr games → find_jays games = None →
  cycle env ds = (Value tt, mkWorld ds [UrlfetchGet]).
Proof.
  intros Htz Hget Hdec Hnone. run_cycle.
  by rewrite Htz, Hget, Hdec, Hnone.
Qed.

(** Case analysis on a cycle: the fetch fails, no game is found, or the
    game is checked in one of the four ways of [check_alert_cases]. *)
Ltac cycle_cases env ds :=
  let err := fresh "err" in
  let t := fresh "t" in
  let Hf := fresh "Hfetch" in
  let Htz := fresh "Htz" in
  let Hget := fresh "Hget" in
  let games := fresh "games" in
  let Hdec := fresh "Hdec" in
  let g := fresh "jaysGame" in
  let h := fresh "areJaysHome" in
  let Hfind := fresh "Hfind" in
  let Hex := fresh "Hex" in
  let Hga := fresh "Hga" in
  let Hch := fresh "Hch" in
  let Hput := fresh "Hput" in
  let Hout := fresh "Hout" in
  destruct (fetch_cases env) as [(err & t & Hf)|(Htz & Hget & games & Hdec)];
  [ pose proof (cycle_fetch_fails env ds err t Hf) as Hout
  | destruct (find_jays games) as [[g h]|] eqn:Hfind;
    [ assert (extracts env g h) as Hex
        by (split_and!; [done..|]; by exists games);
      pose proof (cycle_extracted env ds g h Hex) as Hout;
      destruct (check_alert_cases env g h ds [UrlfetchGet])
        as [(err & Hga & Hc)|[(Hga & Hch & Hc)|
            [(err & Hga & Hch & Hput & Hc)|(Hga & Hch & Hput & Hc)]]];
      rewrite Hc in Hout; clear Hc
    | pose proof (cycle_not_found env ds games Htz Hget Hdec Hfind) as Hout ] ].

(** ** Errors and calls of a cycle *)

(** X4. When the time zone cannot be loaded, the scoreboard cannot be
    fetched or its body cannot be decoded, the cycle logs the error and
    replies 500 with its message; the datastore is neither queried nor
    written, nothing is posted, and without the time zone not even the
    scoreboard is requested. *)
Theorem fetch_failure_aborts env ds err t :
  fetch_fails env err t →
  let out := cycle env ds in
  out = (Error err, mkWorld ds (t ++ [LogCritical err; HttpError err 500])) ∧
  did is_read out = false ∧ did is_put out = false ∧
  did is_post out = false ∧
  (env_timezone env = Some err → filter is_call (events out.2) = []).
Proof.
  intros Hf out. subst out. rewrite (cycle_fetch_fails _ _ _ _ Hf).
  split; [done|].
  destruct Hf as [[Htz ->]|(Htz & -> & _)]; unfold did; simpl;
    split_and!; try done.
  rewrite Htz. discriminate.
Qed.

Lemma fetch_failure_aborts_witness :
  let err := "unknown time zone America/New_York" in
  cycle no_zoneinfo (one_alert (mkAlert "" "Jays win" 3)) =
    (Error err,
     mkWorld (one_alert (mkAlert "" "Jays win" 3))
       [LogCritical err; HttpError err 500]).
Proof.
  intros err.
  apply (fetch_failure_aborts no_zoneinfo _ err []).
  left. split; reflexivity.
Defined.

(** X5. The reply and the log agree: a cycle that replies 200 has logged no
    error and called [http.Error] never; a cycle that replies 500 has logged
    exactly one error, the one in the reply, as its last two events, so
    nothing is called after the error exit. *)
Theorem reply_matches_log env ds :
  match (cycle env ds).1 with
  | Value _ => did is_error (cycle env ds) = false
  | Error err =>
      ∃ t, events (cycle env ds).2 = t ++ [LogCritical err; HttpError err 500] ∧
           existsb is_error t = false
  end.
Proof.
  cycle_cases env ds; rewrite Hout; simpl; try done.
  - exists t. split; [done|].
    by destruct Hfetch as [[_ ->]|(_ & -> & _)].
  - by eexists [_; _].
  - by eexists [_; _; _].
  - unfold post_reply, did. destruct (env_post env); simpl; [done|..];
      by eexists [_; _; _; _].
Qed.

(** X6. The calls of a cycle are an initial part of the sequence: fetch the
    scoreboard, query the datastore, write the alert, post it.  Each is made
    at most once, none out of this order, and a later one never without the
    earlier ones. *)
Theorem calls_in_order env ds :
  ∃ n key src body,
    filter is_call (events (cycle env ds).2) =
      take n [UrlfetchGet; DatastoreGetAll;
              DatastorePut key src (env_put env); UrlfetchPost body].
Proof.
  pose (a0 := mkAlert "" "" 0). pose (b0 := mkSlackNotification []).
  cycle_cases env ds; rewrite Hout; simpl.
  - destruct Hfetch as [[_ ->]|(_ & -> & _)].
    + by exists 0%nat, IncompleteKey, a0, b0.
    + by exists 1%nat, IncompleteKey, a0, b0.
  - by exists 2%nat, IncompleteKey, a0, b0.
  - by exists 2%nat, IncompleteKey, a0, b0.
  - eexists 3%nat, _, _, b0. rewrite Hput. reflexivity.
  - eexists 4%nat, _, _, _. rewrite Hput. unfold post_reply.
    destruct (env_post env); reflexivity.
  - by exists 1%nat, IncompleteKey, a0, b0.
Qed.

(** X7. A cycle either posts and leaves the datastore with the single write
    it made, or does not post and leaves the datastore exactly as it found
    it.  In the first case the events hold exactly one [datastore.Put], with
    no error, under the key of the latest alert or an incomplete key when
    there is none; the datastore is the one found with that alert written
    under that key; and the one post carries the brief text of the alert
    written. *)
Theorem writes_exactly_when_posting env ds :
  (did is_post (cycle env ds) = true ∧
   ∃ src color,
     let key := write_key (datastore_GetAll ds) in
     filter is_put (events (cycle env ds).2) = [DatastorePut key src None] ∧
     filter is_post (events (cycle env ds).2)
       = [UrlfetchPost
            (mkSlackNotification
               [SlackAttachment.mk "" color (BriefText src)])] ∧
     datastore (cycle env ds).2 = datastore_Put key src ds ∧
     datastore (cycle env ds).2 !! put_id key ds = Some src) ∨
  (did is_post (cycle env ds) = false ∧ datastore (cycle env ds).2 = ds).
Proof.
  cycle_cases env ds; rewrite Hout; unfold did; simpl; try (by right).
  - right. by destruct Hfetch as [[_ ->]|(_ & -> & _)].
  - left. unfold post_reply.
    destruct (env_post env); simpl; (split; [done|]);
      eexists _, _; (split_and!; [reflexivity|reflexivity|reflexivity|]);
      unfold datastore_Put; apply lookup_insert_eq.
Qed.

(** ** The datastore over many cycles *)

(** The write of a cycle on a non-empty datastore goes to a key it holds. *)
Lemma write_key_stored ds :
  ds ≠ ∅ → is_Some (ds !! put_id (write_key (datastore_GetAll ds)) ds).
Proof.
  intros Hne. destruct (datastore_GetAll ds) as [|[key0 latest] rest] eqn:Hq.
  { by apply GetAll_nil in Hq. }
  simpl. exists latest. apply GetAll_elem. rewrite Hq. left.
Qed.

Lemma written_size ds cur :
  size (datastore_Put (write_key (datastore_GetAll ds)) cur ds)
    = Nat.max 1 (size ds).
Proof.
  unfold datastore_Put. destruct (decide (ds = ∅)) as [->|Hne].
  - rewrite insert_empty, map_size_singleton. reflexivity.
  - rewrite map_size_insert_Some by (by apply write_key_stored).
    assert (size ds ≠ 0%nat) by (by apply map_size_non_empty_iff).
    lia.
Qed.

Lemma written_dom ds cur :
  ds ≠ ∅ →
  dom (datastore_Put (write_key (datastore_GetAll ds)) cur ds) = dom ds.
Proof.
  intros Hne. unfold datastore_Put. apply dom_insert_lookup_L.
  by apply write_key_stored.
Qed.

(** The datastore a cycle leaves: as found, or with the current alert
    written where [write_key] says. *)
Lemma cycle_writes env ds :
  datastore (cycle env ds).2 = ds ∨
  ∃ cur, datastore (cycle env ds).2 =
           datastore_Put (write_key (datastore_GetAll ds)) cur ds.
Proof.
  cycle_cases env ds; rewrite Hout; simpl; eauto.
Qed.

(** X8. On a datastore that holds at least one entity a cycle never adds
    one: whatever the cycle does, the keys stored after it are exactly the
    keys stored before. *)
Theorem keys_fixed_once_stored env ds :
  ds ≠ ∅ → dom (datastore (cycle env ds).2) = dom ds.
Proof.
  intros Hne. destruct (cycle_writes env ds) as [->|[cur ->]]; [done|].
  by apply written_dom.
Qed.

Lemma keys_fixed_once_stored_witness :
  dom (datastore (cycle (calm [jays_at_home] 12) two_alerts).2)
    = dom two_alerts.
Proof.
  apply (keys_fixed_once_stored (calm [jays_at_home] 12) two_alerts).
  intros H. apply (f_equal size) in H. vm_compute in H. discriminate.
Defined.

Lemma cycle_size env ds :
  (size (datastore (cycle env ds).2) ≤ Nat.max 1 (size ds))%nat.
Proof.
  destruct (cycle_writes env ds) as [->|[cur ->]]; [lia|].
  by rewrite written_size.
Qed.

Lemma poll_size envs ds : (size (poll envs ds) ≤ Nat.max 1 (size ds))%nat.
Proof.
  revert ds. induction envs as [|env envs IH]; intros ds; simpl; [lia|].
  pose proof (IH (datastore (cycle env ds).2)).
  pose proof (cycle_size env ds). lia.
Qed.

(** X9. However many cycles run, and whatever happens in them, the datastore
    never holds more entities than it did at the start, or than one if it
    started empty: polling from an empty datastore keeps at most one alert. *)
Theorem poll_keeps_one_slot envs ds :
  (size (poll envs ds) ≤ Nat.max 1 (size ds))%nat ∧
  (size (poll envs ∅) ≤ 1)%nat.
Proof.
  split; [apply poll_size|].
  pose proof (poll_size envs ∅) as H. by rewrite map_size_empty in H.
Qed.

(** The written alert heads the next query when it is newer than every
    entity but the one it may replace. *)
Lemma written_heads_query ds cur :
  (∀ k a, (k, a) ∈ tail (datastore_GetAll ds) → Updated a < Updated cur) →
  ∃ key rest,
    datastore_GetAll (datastore_Put (write_key (datastore_GetAll ds)) cur ds)
      = (key, cur) :: rest.
Proof.
  intros Holder.
  set (key := put_id (write_key (datastore_GetAll ds)) ds).
  destruct (GetAll_head
              (datastore_Put (write_key (datastore_GetAll ds)) cur ds) key cur)
    as [rest Hq].
  - unfold datastore_Put. apply lookup_insert_eq.
  - intros k' a' Hk' Hne'. unfold datastore_Put in Hk'.
    rewrite lookup_insert_ne in Hk' by done.
    apply (Holder k' a'). apply GetAll_elem in Hk'. subst key.
    destruct (datastore_GetAll ds) as [|[key0 latest] rest].
    { by apply elem_of_nil in Hk'. }
    simpl in *. apply elem_of_cons in Hk' as [[= -> ->]|Hin]; done.
  - by exists key, rest.
Qed.

(** After a cycle that read and could write, the brief text of the game is
    the brief text at the head of the query. *)
Lemma cycle_brief_stored env ds jaysGame areJaysHome :
  extracts env jaysGame areJaysHome →
  env_getall env = None → env_put env = None →
  (∀ k a, (k, a) ∈ tail (datastore_GetAll ds) → Updated a < env_now env) →
  ∃ key latest rest,
    datastore_GetAll (datastore (cycle env ds).2) = (key, latest) :: rest ∧
    BriefText latest = BriefText (Alerts jaysGame).
Proof.
  intros Hex Hga Hput Holder. rewrite (cycle_extracted _ _ _ _ Hex).
  destruct (check_alert_cases env jaysGame areJaysHome ds [UrlfetchGet])
    as [(err & Hga' & _)|[(_ & Hsame & ->)|
        [(err & _ & _ & Hput' & _)|(_ & Hch & _ & ->)]]];
    [congruence| |congruence|]; simpl.
  - destruct (datastore_GetAll ds) as [|[key0 latest] rest]; simpl in *.
    { done. }
    exists key0, latest, rest. split; [done|].
    by destruct (decide (BriefText latest = BriefText (Alerts jaysGame))).
  - destruct (written_heads_query ds (current env jaysGame) Holder)
      as (key & rest & Hq).
    by exists key, (current env jaysGame), rest.
Qed.

Lemma cycle_same_brief env ds jaysGame areJaysHome key latest rest :
  extracts env jaysGame areJaysHome →
  env_getall env = None →
  datastore_GetAll ds = (key, latest) :: rest →
  BriefText latest = BriefText (Alerts jaysGame) →
  cycle env ds = (Value tt, mkWorld ds [UrlfetchGet; DatastoreGetAll]).
Proof.
  intros Hex Hga Hq Heq. rewrite (cycle_extracted _ _ _ _ Hex).
  by rewrite (check_alert_unchanged _ _ _ _ _ _ _ _ Hga Hq Heq).
Qed.

(** X10. No second notification for the same state: after a cycle that could
    read and write the datastore, the next cycle that finds a game with the
    same brief text reads the datastore and does nothing else, provided the
    first cycle's instant is later than those of all stored alerts but the
    latest.  This holds whether or not the first post went through: a
    notification that failed to be delivered is not sent again. *)
Theorem no_second_notification env1 env2 ds game1 home1 game2 home2 :
  extracts env1 game1 home1 →
  env_getall env1 = None → env_put env1 = None →
  (∀ k a, (k, a) ∈ tail (datastore_GetAll ds) → Updated a < env_now env1) →
  extracts env2 game2 home2 →
  env_getall env2 = None →
  BriefText (Alerts game2) = BriefText (Alerts game1) →
  let ds1 := datastore (cycle env1 ds).2 in
  cycle env2 ds1 = (Value tt, mkWorld ds1 [UrlfetchGet; DatastoreGetAll]).
Proof.
  intros Hex1 Hga1 Hput1 Holder Hex2 Hga2 Hbrief ds1. subst ds1.
  destruct (cycle_brief_stored env1 ds game1 home1 Hex1 Hga1 Hput1 Holder)
    as (key & latest & rest & Hq & Hlatest).
  apply (cycle_same_brief env2 _ game2 home2 key latest rest); [done..|].
  congruence.
Qed.

Lemma no_second_notification_witness :
  let ds1 := datastore (cycle reset_by_peer two_alerts).2 in
  (cycle reset_by_peer two_alerts).1 = Error "connection reset" ∧
  cycle (calm [elsewhere; jays_away] 15) ds1
    = (Value tt, mkWorld ds1 [UrlfetchGet; DatastoreGetAll]).
Proof.
  intros ds1. split; [reflexivity|].
  apply (no_second_notification reset_by_peer (calm [elsewhere; jays_away] 15)
           two_alerts jays_at_home true jays_away false).
  - unfold extracts. simpl. split_and!; [done..|]. by eexists.
  - reflexivity.
  - reflexivity.
  - intros k a Hin. vm_compute in Hin.
    apply elem_of_cons in Hin as [[= -> ->]|Hin]; [simpl; lia|].
    by apply elem_of_nil in Hin.
  - unfold extracts. simpl. split_and!; [done..|]. by eexists.
  - reflexivity.
  - reflexivity.
Defined.






(** X12. A change that could not be stored is not lost: when the write of a
    cycle fails, the datastore is as before, and the next cycle that finds
    the same brief text and can read and write stores it and posts it. *)
Theorem failed_write_is_retried env1 env2 ds game1 home1 game2 home2 err :
  extracts env1 game1 home1 →
  env_getall env1 = None →
  did is_put (cycle env1 ds) →
  env_put env1 = Some err →
  extracts env2 game2 home2 →
  env_getall env2 = None → env_put env2 = None →
  BriefText (Alerts game2) = BriefText (Alerts game1) →
  let ds1 := datastore (cycle env1 ds).2 in
  ds1 = ds ∧
  did is_put (cycle env2 ds1) ∧ did is_post (cycle env2 ds1) ∧
  datastore (cycle env2 ds1).2
    = datastore_Put (write_key (datastore_GetAll ds)) (current env2 game2) ds.
Proof.
  intros Hex1 Hga1 Hwrote Hput1 Hex2 Hga2 Hput2 Hbrief ds1. subst ds1.
  rewrite (cycle_extracted _ _ _ _ Hex1) in Hwrote |- *.
  destruct (check_alert_cases env1 game1 home1 ds [UrlfetchGet])
    as [(e & Hga' & _)|[(_ & Hsame & Hc)|
        [(e & _ & Hch & _ & Hc)|(_ & _ & Hput' & _)]]];
    [congruence| |clear Hwrote|congruence].
  { by rewrite Hc in Hwrote. }
  rewrite Hc. simpl. split; [done|].
  rewrite (cycle_extracted _ _ _ _ Hex2).
  assert (changed (datastore_GetAll ds) (Alerts game2)) as Hch2.
  { destruct (datastore_GetAll ds) as [|[??]?]; simpl in *; congruence. }
  apply write_key_changed in Hch2.
  rewrite (check_alert_written _ _ _ _ _ Hga2 Hput2 _ Hch2).
  unfold did, post_reply. destruct (env_post env2); simpl; done.
Qed.

Lemma failed_write_is_retried_witness :
  let ds1 := datastore (cycle disk_full two_alerts).2 in
  ds1 = two_alerts ∧
  did is_put (cycle (calm [jays_away] 12) ds1) ∧
  did is_post (cycle (calm [jays_away] 12) ds1) ∧
  datastore (cycle (calm [jays_away] 12) ds1).2
    = datastore_Put (write_key (datastore_GetAll two_alerts))
        (current (calm [jays_away] 12) jays_away) two_alerts.
Proof.
  apply (failed_write_is_retried disk_full (calm [jays_away] 12) two_alerts
           jays_at_home true jays_away false "datastore: over quota").
  - unfold extracts. simpl. split_and!; [done..|]. by eexists.
  - reflexivity.
  - vm_compute. exact I.
  - reflexivity.
  - unfold extracts. simpl. split_and!; [done..|]. by eexists.
  - reflexivity.
  - reflexivity.
  - reflexivity.
Defined.

(** ** The colour and the clock *)

(** X13. The colour depends only on Toronto's runs against the opponent's:
    exchanging the two sides, role and run counts together, gives the same
    colour, and exchanging the run counts alone turns green into red and
    red into green and keeps gray. *)
Theorem pick_color_sides areJaysHome home away :
  pick_color areJaysHome (mkRuns home away)
    = pick_color (negb areJaysHome) (mkRuns away home) ∧
  (pick_color areJaysHome (mkRuns home away) = "#00cc00" ↔
   pick_color areJaysHome (mkRuns away home) = "#e50000") ∧
  (pick_color areJaysHome (mkRuns home away) = "#808080" ↔
   pick_color areJaysHome (mkRuns away home) = "#808080").
Proof.
  unfold pick_color. simpl. rewrite !Z.gtb_ltb.
  destruct (Z.ltb_spec away home), (Z.ltb_spec home away);
    destruct areJaysHome; simpl; split_and!; try done; lia.
Qed.

(** X14. The instant of line 166 decides nothing: with another value of
    that [time.Now()] the cycle gives the same reply and the same events,
    except that the alert handed to [datastore.Put] carries the other
    instant; and every key of the datastore then holds what it holds with
    the original instant, or an alert with the same long and brief text
    whose [Updated] is the other instant.  Texts, keys, calls and the reply
    never depend on it. *)
Theorem clock_decides_nothing now env ds :
  let out := cycle env ds in
  let out' := cycle (with_now now env) ds in
  out'.1 = out.1 ∧
  events out'.2 = retime now <$> events out.2 ∧
  ∀ k,
    datastore out'.2 !! k = datastore out.2 !! k ∨
    ∃ a a', datastore out.2 !! k = Some a ∧
            datastore out'.2 !! k = Some a' ∧
            Text a' = Text a ∧ BriefText a' = BriefText a ∧
            Updated a = env_now env ∧ Updated a' = now.
Proof.
  intros out out'. subst out out'. unfold with_now. run_cycle. simpl.
  destruct (env_timezone env); [by split_and!; [..|left]|].
  destruct (env_get env); [by split_and!; [..|left]|].
  destruct (env_decode env) as [|games]; [by split_and!; [..|left]|]. simpl.
  destruct (find_jays games) as [[jaysGame areJaysHome]|];
    [|by split_and!; [..|left]].
  destruct (env_getall env); [by split_and!; [..|left]|]. simpl.
  assert (∀ key k,
    datastore_Put key (set_Updated now (Alerts jaysGame)) ds !! k
      = datastore_Put key (set_Updated (env_now env) (Alerts jaysGame)) ds !! k ∨
    ∃ a a',
      datastore_Put key (set_Updated (env_now env) (Alerts jaysGame)) ds !! k
        = Some a ∧
      datastore_Put key (set_Updated now (Alerts jaysGame)) ds !! k = Some a' ∧
      Text a' = Text a ∧ BriefText a' = BriefText a ∧
      Updated a = env_now env ∧ Updated a' = now) as Hput.
  { intros key k. unfold datastore_Put.
    destruct (decide (k = put_id key ds)) as [->|Hne].
    - right. eexists _, _. rewrite !lookup_insert_eq. by split_and!.
    - left. by rewrite !lookup_insert_ne. }
  destruct (datastore_GetAll ds) as [|[key0 latest] rest]; simpl.
  - destruct (env_put env); [by split_and!; [..|left]|]. simpl.
    destruct (env_post env); simpl; (split_and!; [done|done|apply Hput]).
  - destruct (decide _); [|by split_and!; [..|left]].
    destruct (env_put env); [by split_and!; [..|left]|]. simpl.
    destruct (env_post env); simpl; (split_and!; [done|done|apply Hput]).
Qed.
